(** * GoogleAuth: scope normalisation and session projection

    A shallow embedding of
    [packages/core-api/src/apis/implementations/auth/google/GoogleAuth.ts]
    and the properties its specification states about it.

    Layout: the JavaScript values the file works with (strings as
    sequences of UTF-16 code units, [String.prototype.split] on [/[\s]/],
    [startsWith], [Date]), then the definitions of [GoogleAuth.ts] itself,
    then the theorems. *)

From Stdlib Require Import ZArith NArith QArith Ascii String List Lia SpecFloat.
From stdpp Require Import base list sets gmap countable.

Set Default Proof Using "Type".

(** ** JavaScript values *)

Module JS.

(** A JavaScript string is a finite sequence of 16-bit code units; string
    equality ([===]), [startsWith] and a regular expression without the
    [u] flag all work on code units. *)
Abbreviation code_unit := N (only parsing).
Abbreviation jsstring := (list N) (only parsing).

Definition is_code_unit (c : code_unit) : Prop := (c < 65536)%N.
Definition well_formed (s : jsstring) : Prop := Forall is_code_unit s.

Fixpoint js (s : string) : jsstring :=
  match s with
  | EmptyString => []
  | String a s' => N_of_ascii a :: js s'
  end.

(** The character class [\s]: the WhiteSpace and LineTerminator code
    points of ECMAScript (TAB, LF, VT, FF, CR, SP, NBSP, U+1680,
    U+2000..U+200A, U+2028, U+2029, U+202F, U+205F, U+3000, U+FEFF). *)
Definition isWhiteSpace (c : code_unit) : bool :=
  ((9 <=? c) && (c <=? 13)
   || (c =? 32) || (c =? 160) || (c =? 5760)
   || (8192 <=? c) && (c <=? 8202)
   || (c =? 8232) || (c =? 8233) || (c =? 8239) || (c =? 8287)
   || (c =? 12288) || (c =? 65279))%N.

(** [s.split(/[\s]/)]: the pieces of [s] between consecutive matches of
    a single white-space code unit; [n] matches give [n + 1] pieces, some
    of which may be empty. *)
Fixpoint split (s : jsstring) : list jsstring :=
  match s with
  | [] => [[]]
  | c :: s' =>
      if isWhiteSpace c then [] :: split s'
      else match split s' with
           | [] => [[c]]
           | piece :: pieces => (c :: piece) :: pieces
           end
  end.

(** [Boolean(s)] on a string: every string but the empty one is truthy. *)
Definition Boolean (s : jsstring) : bool :=
  match s with
  | [] => false
  | _ :: _ => true
  end.

(** [s.startsWith(p)] *)
Fixpoint startsWith (s p : jsstring) {struct p} : bool :=
  match p with
  | [] => true
  | c :: p' =>
      match s with
      | [] => false
      | d :: s' => (d =? c)%N && startsWith s' p'
      end
  end.

(** Numbers. A Number is a binary64 floating-point value: a
    [spec_float] of the Standard Library's specification of IEEE 754
    arithmetic, with 53 bits of precision and infinities at exponent
    1024; [+] and [*] round to nearest, ties to even.  Clock readings
    ([Date.now()]) and the time values of dates are whole Numbers of
    milliseconds; they are kept as integers, [Number_of_Z t] being the
    Number that the integer [t] denotes. *)
Abbreviation number := spec_float (only parsing).
Abbreviation time_value := Z (only parsing).

Definition Number_of_Z (z : Z) : number := binary_normalize 53 1024 z 0 false.
Definition Number_add (x y : number) : number := SFadd 53 1024 x y.
Definition Number_mul (x y : number) : number := SFmul 53 1024 x y.

(** The Number of a non-zero integer [z] below [2 ^ 53] in magnitude:
    its mantissa is [z] shifted to 53 digits. *)
Definition canon (s : bool) (z : positive) : number :=
  S754_finite s (Z.to_pos (Z.pos z * 2 ^ (52 - Z.log2 (Z.pos z))))
              (Z.log2 (Z.pos z) - 52).

(** The finite Number with mantissa [m] and exponent [e] has the
    magnitude [m * 2 ^ e], which is [numerator m e / denominator e]. *)
Definition numerator (m : positive) (e : Z) : Z := (Z.pos m * 2 ^ Z.max e 0)%Z.
Definition denominator (e : Z) : Z := (2 ^ Z.max (- e) 0)%Z.

Definition Qlt_bool (x y : Q) : bool :=
  (Qnum x * Z.pos (Qden y) <? Qnum y * Z.pos (Qden x))%Z.

(** [Date]. A date holds a time value: an integral number of
    milliseconds of magnitude at most [8.64e15], or [NaN] for an invalid
    date ([None] here).  [new Date(time)] applies TimeClip to [time]:
    [NaN] when [time] is not finite or exceeds [8.64e15] in magnitude,
    otherwise [time] with its fraction cut off. *)
Definition Date : Type := option Z.

Definition maxTimeValue : Z := 8640000000000000.

Definition exceedsTimeRange (time : number) : bool :=
  match time with
  | S754_nan | S754_infinity _ => true
  | S754_zero _ => false
  | S754_finite _ m e => (maxTimeValue * denominator e <? numerator m e)%Z
  end.

Definition truncate (time : number) : Z :=
  match time with
  | S754_finite s m e => cond_Zopp s (numerator m e / denominator e)%Z
  | _ => 0%Z
  end.

Definition TimeClip (time : number) : option Z :=
  if exceedsTimeRange time then None else Some (truncate time).

Definition new_Date (time : number) : Date := TimeClip time.

(** [d.getTime()], [None] standing for [NaN]. *)
Definition getTime (d : Date) : option Z := d.

End JS.

Import JS.

(** ** GoogleAuth.ts *)

Module GoogleAuth.

Definition SCOPE_PREFIX : jsstring := js "https://www.googleapis.com/auth/".

(** The argument [scopes?: string | string[]]. *)
Inductive Scopes : Type :=
| undefined
| a_string (s : jsstring)
| an_array (l : list jsstring).

(** [!scopes]: [undefined] and the empty string are falsy, an array is
    always truthy. *)
Definition falsy (scopes : Scopes) : bool :=
  match scopes with
  | undefined => true
  | a_string s => negb (Boolean s)
  | an_array _ => false
  end.

(** The callback handed to [scopeList.map]. *)
Definition normalizeScope (scope : jsstring) : jsstring :=
  if bool_decide (scope = js "openid") then scope
  else if bool_decide (scope = js "profile") || bool_decide (scope = js "email")
  then SCOPE_PREFIX ++ js "userinfo." ++ scope
  else if startsWith scope SCOPE_PREFIX then scope
  else SCOPE_PREFIX ++ scope.

Definition scopeList (scopes : Scopes) : list jsstring :=
  match scopes with
  | an_array l => l
  | a_string s => List.filter Boolean (split s)
  | undefined => []
  end.

Definition normalizeScopes (scopes : Scopes) : gset jsstring :=
  if falsy scopes then ∅
  else list_to_set (normalizeScope <$> scopeList scopes).

(** *** Responses and sessions *)

(** [GoogleAuthResponse] *)
Module Response.
Record ProviderInfo : Type := {
  accessToken : jsstring;
  idToken : jsstring;
  scope : jsstring;
  expiresInSeconds : number;
}.
Record t (ProfileInfo BackstageIdentity : Type) : Type := {
  providerInfo : ProviderInfo;
  profile : ProfileInfo;
  backstageIdentity : BackstageIdentity;
}.
Arguments providerInfo {_ _} _.
Arguments profile {_ _} _.
Arguments backstageIdentity {_ _} _.
End Response.

(** Modelled from the spec: [GoogleSession], whose declaration in
    [./types] is not among the sources.  The fields are those of the
    specification's Session record, laid out as [sessionTransform] builds
    them and the accessors read them. *)
Module Session.
Record ProviderInfo : Type := {
  idToken : jsstring;
  accessToken : jsstring;
  scopes : gset jsstring;
  expiresAt : Date;
}.
Record t (ProfileInfo BackstageIdentity : Type) : Type := {
  providerInfo : ProviderInfo;
  profile : ProfileInfo;
  backstageIdentity : BackstageIdentity;
}.
Arguments providerInfo {_ _} _.
Arguments profile {_ _} _.
Arguments backstageIdentity {_ _} _.
End Session.

Section Create.
Context {ProfileInfo BackstageIdentity : Type}.

Abbreviation GoogleAuthResponse := (Response.t ProfileInfo BackstageIdentity).
Abbreviation GoogleSession := (Session.t ProfileInfo BackstageIdentity).

(** The connector's [sessionTransform]; [now] is the value [Date.now()]
    returns when the transform runs, and [1000] the Number of the
    literal. *)
Definition sessionTransform (now : time_value) (res : GoogleAuthResponse)
  : GoogleSession :=
  {| Session.providerInfo :=
       {| Session.idToken := Response.idToken (Response.providerInfo res);
          Session.accessToken :=
            Response.accessToken (Response.providerInfo res);
          Session.scopes :=
            normalizeScopes (a_string (Response.scope (Response.providerInfo res)));
          Session.expiresAt :=
            new_Date
              (Number_add
                 (Number_of_Z now)
                 (Number_mul (Response.expiresInSeconds (Response.providerInfo res))
                             (Number_of_Z 1000))) |};
     Session.profile := Response.profile res;
     Session.backstageIdentity := Response.backstageIdentity res |}.

(** The options handed to [RefreshingAuthSessionManager]. *)
Record SessionManagerOptions : Type := {
  defaultScopes : gset jsstring;
  sessionScopes : GoogleSession -> gset jsstring;
  sessionShouldRefresh : time_value -> GoogleSession -> bool;
}.

(** The session manager's configuration in [GoogleAuth.create];
    [sessionShouldRefresh] takes the value of [Date.now()] as its first
    argument.  A comparison with [NaN] is false. *)
Definition create : SessionManagerOptions :=
  {| defaultScopes :=
       list_to_set
         [ js "openid";
           SCOPE_PREFIX ++ js "userinfo.email";
           SCOPE_PREFIX ++ js "userinfo.profile" ];
     sessionScopes := fun session =>
       Session.scopes (Session.providerInfo session);
     sessionShouldRefresh := fun now session =>
       match getTime (Session.expiresAt (Session.providerInfo session)) with
       | None => false
       | Some t =>
           let expiresInSec : Q := (inject_Z (t - now) / inject_Z 1000)%Q in
           Qlt_bool expiresInSec (inject_Z (60 * 5))
       end |}.
End Create.

(** *** The client facade *)

Section Client.
(** The collaborators: [AuthRequestOptions] with its empty object [{}],
    the reason a promise is rejected with, and the state the session
    manager keeps between calls. *)
Context {ProfileInfo BackstageIdentity : Type}.
Context {AuthRequestOptions Reason State : Type}.
Context (emptyOptions : AuthRequestOptions).

Abbreviation GoogleSession := (Session.t ProfileInfo BackstageIdentity).

(** A settled promise. *)
Inductive Settled (A : Type) : Type :=
| fulfilled (a : A)
| rejected (e : Reason).
Arguments fulfilled {A} a.
Arguments rejected {A} e.

(** An [async] method of, or over, the session manager. *)
Definition Async (A : Type) : Type := State -> Settled A * State.

Definition resolve {A : Type} (a : A) : Async A := fun st => (fulfilled a, st).

(** [await p] followed by [k]: a rejection of [p] is rethrown. *)
Definition await {A B : Type} (p : Async A) (k : A -> Async B) : Async B :=
  fun st =>
    match p st with
    | (fulfilled a, st') => k a st'
    | (rejected e, st') => (rejected e, st')
    end.

(** The object literal given to [getSession]: the caller's options,
    and [scopes] when the caller sets it.  The set is kept up to
    membership; the order in which a [Set] hands out its elements is not
    part of the model. *)
Record GetSessionOptions : Type := {
  options : AuthRequestOptions;
  scopes : option (gset jsstring);
}.

(** Modelled from the spec: the [SessionManager<GoogleSession>]
    interface of [lib/AuthSessionManager/types], with the two methods the
    client calls: [getSession], which settles with a session or with
    none, and [removeSession]. *)
Record SessionManager : Type := {
  getSession : GetSessionOptions -> Async (option GoogleSession);
  removeSession : Async unit;
}.

Variable sessionManager : SessionManager.

(** [{...options}] where [options] may be [undefined], and the default
    parameter [options = {}]. *)
Definition spread (o : option AuthRequestOptions) : AuthRequestOptions :=
  match o with
  | Some o => o
  | None => emptyOptions
  end.

Definition getAccessToken (scope : Scopes) (o : option AuthRequestOptions)
  : Async jsstring :=
  await
    (getSession sessionManager
       {| options := spread o; scopes := Some (normalizeScopes scope) |})
    (fun session =>
       resolve
         match session with
         | Some s => Session.accessToken (Session.providerInfo s)
         | None => js ""
         end).

Definition getIdToken (o : option AuthRequestOptions) : Async jsstring :=
  await
    (getSession sessionManager {| options := spread o; scopes := None |})
    (fun session =>
       resolve
         match session with
         | Some s => Session.idToken (Session.providerInfo s)
         | None => js ""
         end).

Definition logout : Async unit :=
  await (removeSession sessionManager) (fun _ => resolve tt).

Definition getBackstageIdentity (o : option AuthRequestOptions)
  : Async (option BackstageIdentity) :=
  await
    (getSession sessionManager {| options := spread o; scopes := None |})
    (fun session => resolve (Session.backstageIdentity <$> session)).

Definition getProfile (o : option AuthRequestOptions)
  : Async (option ProfileInfo) :=
  await
    (getSession sessionManager {| options := spread o; scopes := None |})
    (fun session => resolve (Session.profile <$> session)).
End Client.

Arguments fulfilled {Reason A} a.
Arguments rejected {Reason A} e.

End GoogleAuth.

Import GoogleAuth.

(** ** The rule of the specification, and sample inputs *)

(** The rule as the specification words it: ["openid"] is kept,
    ["profile"] and ["email"] are expanded, a token that starts with the
    namespace is kept, and every other token gets the namespace in
    front. *)
Inductive normalized : jsstring -> jsstring -> Prop :=
| normalized_openid :
    normalized (js "openid") (js "openid")
| normalized_profile :
    normalized (js "profile")
               (js "https://www.googleapis.com/auth/userinfo.profile")
| normalized_email :
    normalized (js "email")
               (js "https://www.googleapis.com/auth/userinfo.email")
| normalized_prefixed r :
    normalized (js "https://www.googleapis.com/auth/" ++ r)
               (js "https://www.googleapis.com/auth/" ++ r)
| normalized_other t :
    t ≠ js "openid" -> t ≠ js "profile" -> t ≠ js "email" ->
    (∀ r, t ≠ js "https://www.googleapis.com/auth/" ++ r) ->
    normalized t (js "https://www.googleapis.com/auth/" ++ t).

(** A response that is valid for ten minutes. *)
Definition ten_minute_response : Response.t unit unit :=
  {| Response.providerInfo :=
       {| Response.accessToken := js "ya29.token";
          Response.idToken := js "eyJ.id.token";
          Response.scope := js "openid email";
          Response.expiresInSeconds := Number_of_Z 600 |};
     Response.profile := tt;
     Response.backstageIdentity := tt |}.

(** A response whose lifetime leads past the last time value of [Date]. *)
Definition far_future_response : Response.t unit unit :=
  {| Response.providerInfo :=
       {| Response.accessToken := js "ya29.token";
          Response.idToken := js "eyJ.id.token";
          Response.scope := js "openid email";
          Response.expiresInSeconds := Number_of_Z 9000000000000 |};
     Response.profile := tt;
     Response.backstageIdentity := tt |}.


(** A session manager with nobody logged in: every request resolves to
    no session; its state counts the requests. *)
Definition loggedOutManager : @SessionManager unit unit unit unit nat :=
  {| getSession := fun _ n => (fulfilled None, S n);
     removeSession := fun n => (fulfilled tt, n) |}.


(** A session manager whose requests all fail, say because the user
    closed the consent popup; its state counts the requests. *)
Definition rejectingManager : @SessionManager unit unit unit string nat :=
  {| getSession := fun _ n => (rejected "popup closed"%string, S n);
     removeSession := fun n => (rejected "offline"%string, n) |}.

(** A session manager that holds the session made of
    [ten_minute_response] at time [1600000000000]. *)
Definition signedInManager : @SessionManager unit unit unit string nat :=
  {| getSession := fun _ n =>
       (fulfilled (Some (sessionTransform 1600000000000 ten_minute_response)), S n);
     removeSession := fun n => (fulfilled tt, n) |}.

(** ** Strings: prefixes and splitting *)

Section Strings.
Implicit Types (s p r t : jsstring) (c w : code_unit).

Lemma startsWith_app p r : startsWith (p ++ r) p = true.
Proof.
  induction p as [|c p IH]; simpl; [done|].
  by rewrite N.eqb_refl.
Qed.

Lemma startsWith_inv s p : startsWith s p = true -> ∃ r, s = p ++ r.
Proof.
  revert s; induction p as [|c p IH]; intros s; simpl.
  - by exists s.
  - destruct s as [|d s]; [done|].
    intros [Hd Hs]%andb_true_iff.
    apply N.eqb_eq in Hd as ->.
    destruct (IH _ Hs) as [r ->]. by exists r.
Qed.

Lemma startsWith_iff s p : startsWith s p = true ↔ ∃ r, s = p ++ r.
Proof.
  split; [apply startsWith_inv|].
  intros [r ->]. apply startsWith_app.
Qed.

(** String literals of the source are well formed, and so is what
    concatenation makes of well-formed strings. *)
Lemma js_well_formed (lit : string) : well_formed (js lit).
Proof.
  induction lit as [|a lit IH]; simpl; constructor; [|exact IH].
  unfold is_code_unit. pose proof (N_ascii_bounded a). lia.
Qed.

Lemma app_well_formed s t : well_formed s -> well_formed t -> well_formed (s ++ t).
Proof. apply Forall_app_2. Qed.

Lemma split_not_nil s : split s ≠ [].
Proof.
  destruct s as [|c s]; simpl; [done|].
  destruct (isWhiteSpace c); [done|].
  by destruct (split s).
Qed.

(** A white-space code unit ends one piece and starts the next. *)
Lemma split_app_ws s w s' :
  isWhiteSpace w = true -> split (s ++ w :: s') = split s ++ split s'.
Proof.
  intros Hw. induction s as [|c s IH]; simpl.
  - by rewrite Hw.
  - rewrite IH. destruct (isWhiteSpace c); [done|].
    pose proof (split_not_nil s) as Hne.
    by destruct (split s).
Qed.

Lemma split_no_ws s :
  forallb (fun c => negb (isWhiteSpace c)) s = true -> split s = [s].
Proof.
  induction s as [|c s IH]; simpl; [done|].
  intros [Hc Hs]%andb_true_iff.
  apply negb_true_iff in Hc. rewrite Hc, (IH Hs). done.
Qed.

Lemma split_all_ws s :
  forallb isWhiteSpace s = true -> List.filter Boolean (split s) = [].
Proof.
  induction s as [|c s IH]; simpl; [done|].
  intros [Hc Hs]%andb_true_iff. rewrite Hc. simpl. auto.
Qed.

(** No piece of a split contains a white-space code unit. *)
Lemma split_pieces s :
  Forall (fun t => forallb (fun c => negb (isWhiteSpace c)) t = true) (split s).
Proof.
  induction s as [|c s IH]; simpl.
  - by repeat constructor.
  - destruct (isWhiteSpace c) eqn:Hc.
    + by constructor.
    + destruct (split s) as [|t ts]; inversion IH; subst;
        constructor; simpl; rewrite ?Hc; auto.
Qed.
End Strings.

(** ** Scope normalisation *)

Section NormalizeScopes.
Implicit Types (t x r : jsstring) (scopes : Scopes).

Lemma prefixed_not_keyword t :
  startsWith t SCOPE_PREFIX = true ->
  t ≠ js "openid" ∧ t ≠ js "profile" ∧ t ≠ js "email".
Proof.
  intros H. repeat split; intros ->; vm_compute in H; discriminate.
Qed.

Lemma normalizeScope_openid : normalizeScope (js "openid") = js "openid".
Proof. reflexivity. Qed.

Lemma normalizeScope_prefixed t :
  startsWith t SCOPE_PREFIX = true -> normalizeScope t = t.
Proof.
  intros H. destruct (prefixed_not_keyword t H) as (H1 & H2 & H3).
  unfold normalizeScope.
  rewrite !bool_decide_eq_false_2 by assumption. cbn [orb]. by rewrite H.
Qed.

Lemma normalizeScope_other t :
  t ≠ js "openid" -> t ≠ js "profile" -> t ≠ js "email" ->
  startsWith t SCOPE_PREFIX = false ->
  normalizeScope t = SCOPE_PREFIX ++ t.
Proof.
  intros H1 H2 H3 H. unfold normalizeScope.
  rewrite !bool_decide_eq_false_2 by assumption. cbn [orb]. by rewrite H.
Qed.

(** What the callback returns is ["openid"] or carries the prefix. *)
Lemma normalizeScope_qualified t :
  normalizeScope t = js "openid"
  ∨ startsWith (normalizeScope t) SCOPE_PREFIX = true.
Proof.
  unfold normalizeScope. case_bool_decide as H1; [by left|right].
  destruct (bool_decide _ || bool_decide _); [apply startsWith_app|].
  destruct (startsWith t SCOPE_PREFIX) eqn:H; [done|apply startsWith_app].
Qed.

Lemma normalizeScope_well_formed t : well_formed t -> well_formed (normalizeScope t).
Proof.
  intros Ht. unfold normalizeScope.
  pose proof (js_well_formed "https://www.googleapis.com/auth/") as Hp.
  fold SCOPE_PREFIX in Hp.
  pose proof (js_well_formed "userinfo.") as Hu.
  repeat match goal with |- context [if ?b then _ else _] => destruct b end;
    auto using app_well_formed.
Qed.

Lemma normalizeScope_idem t : normalizeScope (normalizeScope t) = normalizeScope t.
Proof.
  destruct (normalizeScope_qualified t) as [->|H]; [done|].
  by apply normalizeScope_prefixed.
Qed.

Lemma scopeList_falsy scopes : falsy scopes = true -> scopeList scopes = [].
Proof. destruct scopes as [|[|c s]|l]; done. Qed.

Lemma normalizeScopes_unfold scopes :
  normalizeScopes scopes = list_to_set (normalizeScope <$> scopeList scopes).
Proof.
  unfold normalizeScopes. destruct (falsy scopes) eqn:H; [|done].
  by rewrite (scopeList_falsy _ H).
Qed.

Lemma elem_of_normalizeScopes scopes x :
  x ∈ normalizeScopes scopes ↔ ∃ t, t ∈ scopeList scopes ∧ normalizeScope t = x.
Proof.
  rewrite normalizeScopes_unfold, elem_of_list_to_set, list_elem_of_fmap.
  split; intros (t & H1 & H2); eauto.
Qed.

Lemma scopeList_string_elem s t :
  t ∈ scopeList (a_string s) ->
  t ≠ [] ∧ forallb (fun c => negb (isWhiteSpace c)) t = true.
Proof.
  cbn [scopeList]. rewrite list_elem_of_In, filter_In. intros [Hin Hb]. split.
  - by destruct t.
  - pose proof (split_pieces s) as HF.
    rewrite List.Forall_forall in HF. by apply HF.
Qed.
End NormalizeScopes.

(** *** The rule per token *)

Lemma normalized_sound t x : normalized t x -> normalizeScope t = x.
Proof.
  destruct 1 as [ | | |r|t H1 H2 H3 H4].
  - reflexivity.
  - reflexivity.
  - reflexivity.
  - apply normalizeScope_prefixed, startsWith_app.
  - apply normalizeScope_other; try assumption.
    destruct (startsWith t SCOPE_PREFIX) eqn:H; [|done].
    apply startsWith_inv in H as [r ->]. by destruct (H4 r).
Qed.

Lemma normalized_complete t : normalized t (normalizeScope t).
Proof.
  unfold normalizeScope.
  case_bool_decide as H1; [subst; constructor|].
  case_bool_decide as H2; [subst; constructor|].
  case_bool_decide as H3; [subst; constructor|].
  cbn [orb]. destruct (startsWith t SCOPE_PREFIX) eqn:H.
  - apply startsWith_inv in H as [r ->]. constructor.
  - constructor; try assumption.
    intros r ->. fold SCOPE_PREFIX in H.
    by rewrite startsWith_app in H.
Qed.

(** C1. [normalizeScopes] maps every input token by the rule above
    (["openid"] unchanged, ["profile"] and ["email"] expanded to the
    userinfo scopes, a token with the namespace prefix unchanged, any
    other token prefixed) and returns the set of the mapped tokens. *)
Theorem normalizeScopes_rule :
  (∀ t x, normalized t x ↔ normalizeScope t = x)
  ∧ (∀ scopes x,
       x ∈ normalizeScopes scopes ↔ ∃ t, t ∈ scopeList scopes ∧ normalized t x)
  ∧ normalizeScopes (a_string (js "openid email"))
    = {[ js "openid"; js "https://www.googleapis.com/auth/userinfo.email" ]}.
Proof.
  assert (Hrule : ∀ t x, normalized t x ↔ normalizeScope t = x).
  { intros t x. split; [apply normalized_sound|].
    intros <-. apply normalized_complete. }
  split; [exact Hrule|]. split.
  - intros scopes x. rewrite elem_of_normalizeScopes.
    split; intros (t & Ht & H); exists t; split; try done; by apply Hrule.
  - vm_compute. reflexivity.
Qed.

(** C2. Every element of the set [normalizeScopes] returns, whatever
    the input, is exactly ["openid"] or starts with the namespace
    prefix. *)
Theorem normalizeScopes_invariant (scopes : Scopes) (x : jsstring) :
  x ∈ normalizeScopes scopes ->
  x = js "openid" ∨ ∃ r, x = js "https://www.googleapis.com/auth/" ++ r.
Proof.
  intros (t & _ & <-)%elem_of_normalizeScopes.
  destruct (normalizeScope_qualified t) as [H|H]; [by left|right].
  by apply startsWith_inv in H.
Qed.

Lemma normalizeScopes_invariant_witness :
  js "https://www.googleapis.com/auth/userinfo.email"
    ∈ normalizeScopes (a_string (js "openid email"))
  ∧ (js "https://www.googleapis.com/auth/userinfo.email" = js "openid"
     ∨ ∃ r, js "https://www.googleapis.com/auth/userinfo.email"
            = js "https://www.googleapis.com/auth/" ++ r).
Proof.
  split.
  - vm_compute. reflexivity.
  - apply (normalizeScopes_invariant (a_string (js "openid email"))).
    vm_compute. reflexivity.
Defined.

(** C4. [normalizeScopes] is idempotent: normalising the elements of a
    normalised set gives the same set, and a scope that already carries
    the namespace prefix normalises to itself. *)
Theorem normalizeScopes_idempotent :
  (∀ scopes,
     normalizeScopes (an_array (elements (normalizeScopes scopes)))
     = normalizeScopes scopes)
  ∧ (∀ r, normalizeScope (SCOPE_PREFIX ++ r) = SCOPE_PREFIX ++ r)
  ∧ normalizeScopes (a_string (SCOPE_PREFIX ++ js "custom.scope"))
    = {[ SCOPE_PREFIX ++ js "custom.scope" ]}
  ∧ normalizeScopes
      (an_array
         (elements (normalizeScopes (a_string (SCOPE_PREFIX ++ js "custom.scope")))))
    = {[ SCOPE_PREFIX ++ js "custom.scope" ]}.
Proof.
  assert (Hidem : ∀ scopes,
            normalizeScopes (an_array (elements (normalizeScopes scopes)))
            = normalizeScopes scopes).
  { intros scopes. apply set_eq. intros x.
    rewrite elem_of_normalizeScopes. cbn [scopeList]. split.
    - intros (t & Ht & <-). apply elem_of_elements in Ht.
      apply elem_of_normalizeScopes in Ht as (t0 & Ht0 & <-).
      rewrite normalizeScope_idem. apply elem_of_normalizeScopes. eauto.
    - intros Hx. exists x. split; [by apply elem_of_elements|].
      apply elem_of_normalizeScopes in Hx as (t0 & Ht0 & <-).
      apply normalizeScope_idem. }
  assert (Hcustom :
            normalizeScopes (a_string (SCOPE_PREFIX ++ js "custom.scope"))
            = {[ SCOPE_PREFIX ++ js "custom.scope" ]}).
  { vm_compute. reflexivity. }
  split; [exact Hidem|]. split; [|split].
  - intros r. apply normalizeScope_prefixed, startsWith_app.
  - exact Hcustom.
  - rewrite Hidem. exact Hcustom.
Qed.

(** C5. With no input ([undefined] or the empty string)
    [normalizeScopes] returns the empty set, which is not the default
    scope set: the function does no defaulting. *)
Theorem normalizeScopes_no_input :
  normalizeScopes undefined = ∅
  ∧ normalizeScopes (a_string (js "")) = ∅
  ∧ ∀ ProfileInfo BackstageIdentity : Type,
      normalizeScopes undefined
      ≠ defaultScopes (@create ProfileInfo BackstageIdentity)
      ∧ normalizeScopes (a_string (js ""))
        ≠ defaultScopes (@create ProfileInfo BackstageIdentity).
Proof.
  split; [reflexivity|]. split; [reflexivity|].
  intros P B.
  assert (H : js "openid" ∈ defaultScopes (@create P B)).
  { cbn [defaultScopes create]. rewrite elem_of_list_to_set. by left. }
  split; intros Heq; change (∅ = defaultScopes (@create P B)) in Heq;
    rewrite <- Heq in H; by apply not_elem_of_empty in H.
Qed.

(** C9. The default scope set given to the session manager is exactly
    the three-element set of ["openid"], the userinfo.email scope and the
    userinfo.profile scope. *)
Theorem create_defaultScopes (ProfileInfo BackstageIdentity : Type) :
  defaultScopes (@create ProfileInfo BackstageIdentity)
  = {[ js "openid";
       js "https://www.googleapis.com/auth/userinfo.email";
       js "https://www.googleapis.com/auth/userinfo.profile" ]}
  ∧ size (defaultScopes (@create ProfileInfo BackstageIdentity)) = 3.
Proof.
  split.
  - vm_compute. reflexivity.
  - vm_compute. reflexivity.
Qed.

(** The default set is what [normalizeScopes] makes of the three short
    names. *)
Lemma create_defaultScopes_normalized (ProfileInfo BackstageIdentity : Type) :
  defaultScopes (@create ProfileInfo BackstageIdentity)
  = normalizeScopes (a_string (js "openid email profile")).
Proof. vm_compute. reflexivity. Qed.

(** *** Strings against arrays *)

(** C10. A string argument is split at every white-space code unit and
    its empty pieces are dropped, so a string of white space only gives
    the empty set and no result contains the empty string; an array
    argument is taken element by element without any splitting, so
    [["openid email"]] is one token and gives one prefixed scope. *)
Theorem normalizeScopes_tokenization :
  (∀ s w s', isWhiteSpace w = true ->
     scopeList (a_string (s ++ w :: s'))
     = scopeList (a_string s) ++ scopeList (a_string s'))
  ∧ (∀ s, s ≠ [] -> forallb (fun c => negb (isWhiteSpace c)) s = true ->
       scopeList (a_string s) = [s])
  ∧ (∀ s, forallb isWhiteSpace s = true -> normalizeScopes (a_string s) = ∅)
  ∧ (∀ scopes, [] ∉ normalizeScopes scopes)
  ∧ (∀ l, scopeList (an_array l) = l
          ∧ normalizeScopes (an_array l) = list_to_set (normalizeScope <$> l))
  ∧ normalizeScopes (an_array [js "openid email"])
    = {[ js "https://www.googleapis.com/auth/openid email" ]}
  ∧ normalizeScopes (a_string (js "openid email"))
    = {[ js "openid"; js "https://www.googleapis.com/auth/userinfo.email" ]}.
Proof.
  split; [|split; [|split; [|split; [|split; [|split]]]]].
  - intros s w s' Hw. cbn [scopeList].
    by rewrite (split_app_ws s w s' Hw), List.filter_app.
  - intros s Hne Hs. cbn [scopeList]. rewrite (split_no_ws s Hs).
    by destruct s.
  - intros s Hs. rewrite normalizeScopes_unfold. cbn [scopeList].
    by rewrite (split_all_ws s Hs).
  - intros scopes (t & _ & H)%elem_of_normalizeScopes.
    destruct (normalizeScope_qualified t) as [Ht|Ht];
      rewrite H in Ht; discriminate.
  - intros l. split; [reflexivity|apply normalizeScopes_unfold].
  - vm_compute. reflexivity.
  - vm_compute. reflexivity.
Qed.

(** Every token of a string argument is non-empty and free of white
    space. *)
Lemma scopeList_string_tokens (s : jsstring) :
  Forall (fun t => t ≠ [] ∧ forallb (fun c => negb (isWhiteSpace c)) t = true)
         (scopeList (a_string s)).
Proof.
  apply List.Forall_forall. intros t Ht.
  apply (scopeList_string_elem s). by apply list_elem_of_In.
Qed.

(** ** Numbers: where the arithmetic is exact *)

Section Numbers.
Local Open Scope Z_scope.

Lemma digits2_pos_size p : digits2_pos p = Pos.size p.
Proof. induction p as [p IH|p IH|]; simpl; by rewrite ?IH. Qed.

Lemma digits2_pos_log2 p : Z.pos (digits2_pos p) = Z.log2 (Z.pos p) + 1.
Proof. rewrite digits2_pos_size. destruct p; simpl; lia. Qed.

Lemma iter_pos_nat {A : Type} (f : A -> A) (n : positive) (x : A) :
  SpecFloat.iter_pos f n x = Nat.iter (Pos.to_nat n) f x.
Proof.
  revert x. induction n as [n IH|n IH|]; intros x; cbn [SpecFloat.iter_pos].
  - rewrite !IH, Pos2Nat.inj_xI. cbn [Nat.mul].
    rewrite Nat.add_0_r, Nat.iter_succ_r, Nat.iter_add. reflexivity.
  - rewrite !IH, Pos2Nat.inj_xO. cbn [Nat.mul].
    by rewrite Nat.add_0_r, Nat.iter_add.
  - reflexivity.
Qed.

Lemma shr_1_double m :
  0 <= m ->
  shr_1 (Build_shr_record (2 * m) false false) = Build_shr_record m false false.
Proof. intros Hm. destruct m as [|p|p]; [reflexivity|reflexivity|lia]. Qed.

Lemma iter_shr_1_exact (n : nat) m :
  0 <= m ->
  Nat.iter n shr_1 (Build_shr_record (m * 2 ^ Z.of_nat n) false false)
  = Build_shr_record m false false.
Proof.
  revert m. induction n as [|n IH]; intros m Hm.
  - cbn [Nat.iter]. by rewrite Z.mul_1_r.
  - rewrite Nat.iter_succ.
    replace (m * 2 ^ Z.of_nat (S n)) with ((2 * m) * 2 ^ Z.of_nat n).
    + rewrite IH by lia. by apply shr_1_double.
    + rewrite Nat2Z.inj_succ, Z.pow_succ_r by lia. ring.
Qed.

Lemma shr_exact m e n :
  0 <= m -> 0 <= n ->
  shr (Build_shr_record (m * 2 ^ n) false false) e n
  = (Build_shr_record m false false, e + n).
Proof.
  intros Hm Hn. destruct n as [|p|p]; [|clear Hn|lia].
  - cbn [shr]. by rewrite Z.mul_1_r, Z.add_0_r.
  - cbn [shr]. rewrite iter_pos_nat.
    rewrite <- (positive_nat_Z p) at 1.
    by rewrite iter_shr_1_exact.
Qed.

(** Shifting the mantissa [z * 2 ^ j] of the number [z] to 53 digits
    loses nothing when [z] has at most 53 digits. *)
Lemma shr_fexp_exact (z : positive) (j : Z) :
  Z.pos z < 2 ^ 53 -> 52 - Z.log2 (Z.pos z) <= j ->
  shr_fexp 53 1024 (Z.pos z * 2 ^ j) (- j) loc_Exact
  = (Build_shr_record (Z.pos z * 2 ^ (52 - Z.log2 (Z.pos z))) false false,
     Z.log2 (Z.pos z) - 52).
Proof.
  intros Hz Hj.
  assert (Hl : 0 <= Z.log2 (Z.pos z) <= 52).
  { split; [apply Z.log2_nonneg|].
    apply Z.lt_succ_r, Z.log2_lt_pow2; lia. }
  assert (H0 : 0 <= j) by lia.
  unfold shr_fexp.
  assert (Hd : Zdigits2 (Z.pos z * 2 ^ j) = Z.log2 (Z.pos z) + 1 + j).
  { assert (Hpos : 0 < Z.pos z * 2 ^ j) by (apply Z.mul_pos_pos; lia).
    destruct (Z.pos z * 2 ^ j) as [|p|p] eqn:Hp; [lia| |lia].
    cbn [Zdigits2]. rewrite digits2_pos_log2, <- Hp, Z.log2_mul_pow2 by lia. lia. }
  rewrite Hd. unfold fexp, emin. cbn [shr_record_of_loc].
  replace (Z.max (Z.log2 (Z.pos z) + 1 + j + - j - 53) (3 - 1024 - 53) - - j)
    with (j - (52 - Z.log2 (Z.pos z))) by lia.
  replace (Z.pos z * 2 ^ j)
    with ((Z.pos z * 2 ^ (52 - Z.log2 (Z.pos z))) * 2 ^ (j - (52 - Z.log2 (Z.pos z)))).
  - rewrite shr_exact by lia. f_equal. lia.
  - rewrite <- Z.mul_assoc, <- Z.pow_add_r by lia. f_equal. f_equal. lia.
Qed.

Lemma binary_round_aux_exact (s : bool) (z : positive) (j : Z) :
  Z.pos z < 2 ^ 53 -> 52 - Z.log2 (Z.pos z) <= j ->
  binary_round_aux 53 1024 s (Z.pos z * 2 ^ j) (- j) loc_Exact = canon s z.
Proof.
  intros Hz Hj.
  assert (Hl : 0 <= Z.log2 (Z.pos z) <= 52).
  { split; [apply Z.log2_nonneg|].
    apply Z.lt_succ_r, Z.log2_lt_pow2; lia. }
  unfold binary_round_aux. rewrite (shr_fexp_exact z j Hz Hj).
  cbn [shr_m loc_of_shr_record round_nearest_even].
  replace (Z.log2 (Z.pos z) - 52) with (- (52 - Z.log2 (Z.pos z))) by lia.
  rewrite (shr_fexp_exact z (52 - Z.log2 (Z.pos z)) Hz) by lia.
  cbn [shr_m].
  assert (Hpos : 0 < Z.pos z * 2 ^ (52 - Z.log2 (Z.pos z)))
    by (apply Z.mul_pos_pos; lia).
  unfold canon.
  destruct (Z.pos z * 2 ^ (52 - Z.log2 (Z.pos z))) as [|p|p]; [lia| |lia].
  rewrite (proj2 (Z.leb_le _ _)) by lia. reflexivity.
Qed.

Lemma Pos_iter_xO (m d : positive) :
  Z.pos (Pos.iter xO m d) = Z.pos m * 2 ^ Z.pos d.
Proof.
  induction d as [|d IH] using Pos.peano_ind.
  - cbn [Pos.iter]. lia.
  - rewrite Pos.iter_succ, Pos2Z.inj_xO, IH, Pos2Z.inj_succ, Z.pow_succ_r by lia.
    ring.
Qed.

Lemma shl_align_fst (m : positive) (ex ex' : Z) :
  ex' <= ex ->
  Z.pos (fst (shl_align m ex ex')) = Z.pos m * 2 ^ (ex - ex')
  /\ snd (shl_align m ex ex') = ex'.
Proof.
  intros Hle. unfold shl_align.
  destruct (ex' - ex) as [|d|d] eqn:Hd; [|lia|]; cbn [fst snd].
  - replace (ex - ex') with 0 by lia. lia.
  - rewrite Pos_iter_xO. replace (ex - ex') with (Z.pos d) by lia. done.
Qed.

Lemma binary_round_exact (s : bool) (z m : positive) (k : Z) :
  Z.pos z < 2 ^ 53 -> 0 <= k -> Z.pos m = Z.pos z * 2 ^ k ->
  binary_round 53 1024 s m (- k) = canon s z.
Proof.
  intros Hz Hk Hm.
  assert (Hl : 0 <= Z.log2 (Z.pos z) <= 52).
  { split; [apply Z.log2_nonneg|].
    apply Z.lt_succ_r, Z.log2_lt_pow2; lia. }
  unfold binary_round.
  rewrite digits2_pos_log2, Hm, Z.log2_mul_pow2 by lia.
  unfold fexp, emin.
  replace (Z.max (k + Z.log2 (Z.pos z) + 1 + - k - 53) (3 - 1024 - 53))
    with (Z.log2 (Z.pos z) - 52) by lia.
  destruct (Z_le_gt_dec (Z.log2 (Z.pos z) - 52) (- k)) as [Hcase|Hcase].
  - destruct (shl_align_fst m (- k) (Z.log2 (Z.pos z) - 52) Hcase) as [Hf Hs].
    destruct (shl_align m (- k) (Z.log2 (Z.pos z) - 52)) as [mz ez].
    cbn [fst snd] in Hf, Hs. subst ez. rewrite Hf, Hm.
    rewrite <- Z.mul_assoc, <- Z.pow_add_r by lia.
    replace (k + (- k - (Z.log2 (Z.pos z) - 52))) with (52 - Z.log2 (Z.pos z)) by lia.
    replace (Z.log2 (Z.pos z) - 52) with (- (52 - Z.log2 (Z.pos z))) at 1 by lia.
    by apply binary_round_aux_exact.
  - unfold shl_align.
    destruct (Z.log2 (Z.pos z) - 52 - - k) as [|d|d] eqn:Hd; [lia| |lia].
    rewrite Hm. apply binary_round_aux_exact; lia.
Qed.

Lemma Number_of_Z_pos (z : positive) :
  Z.pos z < 2 ^ 53 -> Number_of_Z (Z.pos z) = canon false z.
Proof.
  intros Hz. unfold Number_of_Z. cbn [binary_normalize].
  apply (binary_round_exact false z z 0); [done|done|lia].
Qed.

Lemma Number_of_Z_neg (z : positive) :
  Z.pos z < 2 ^ 53 -> Number_of_Z (Z.neg z) = canon true z.
Proof.
  intros Hz. unfold Number_of_Z. cbn [binary_normalize].
  apply (binary_round_exact true z z 0); [done|done|lia].
Qed.

Lemma canon_mantissa (z : positive) :
  Z.pos z < 2 ^ 53 ->
  Z.pos (Z.to_pos (Z.pos z * 2 ^ (52 - Z.log2 (Z.pos z))))
  = Z.pos z * 2 ^ (52 - Z.log2 (Z.pos z))
  /\ 0 <= Z.log2 (Z.pos z) <= 52.
Proof.
  intros Hz.
  assert (Hl : 0 <= Z.log2 (Z.pos z) <= 52).
  { split; [apply Z.log2_nonneg|].
    apply Z.lt_succ_r, Z.log2_lt_pow2; lia. }
  split; [|exact Hl]. apply Z2Pos.id, Z.mul_pos_pos; lia.
Qed.

Lemma canon_mul (sa sb : bool) (a b : positive) :
  Z.pos (a * b) < 2 ^ 53 ->
  Number_mul (canon sa a) (canon sb b) = canon (xorb sa sb) (a * b).
Proof.
  intros Hab.
  assert (Ha : Z.pos a < 2 ^ 53) by nia.
  assert (Hb : Z.pos b < 2 ^ 53) by nia.
  destruct (canon_mantissa a Ha) as [Hma Hla].
  destruct (canon_mantissa b Hb) as [Hmb Hlb].
  unfold Number_mul, canon at 1 2. cbn [SFmul].
  rewrite Pos2Z.inj_mul, Hma, Hmb.
  replace (Z.pos a * 2 ^ (52 - Z.log2 (Z.pos a))
           * (Z.pos b * 2 ^ (52 - Z.log2 (Z.pos b))))
    with (Z.pos (a * b) * 2 ^ (104 - Z.log2 (Z.pos a) - Z.log2 (Z.pos b))).
  - replace (Z.log2 (Z.pos a) - 52 + (Z.log2 (Z.pos b) - 52))
      with (- (104 - Z.log2 (Z.pos a) - Z.log2 (Z.pos b))) by lia.
    apply binary_round_aux_exact; [done|].
    pose proof (Z.log2_mul_below (Z.pos a) (Z.pos b)) as Hbelow.
    rewrite Pos2Z.inj_mul. lia.
  - replace (104 - Z.log2 (Z.pos a) - Z.log2 (Z.pos b))
      with ((52 - Z.log2 (Z.pos a)) + (52 - Z.log2 (Z.pos b))) by lia.
    rewrite Z.pow_add_r, Pos2Z.inj_mul by lia. ring.
Qed.

Lemma binary_normalize_exact (n : Z) (k : Z) :
  Z.abs n < 2 ^ 53 -> 0 <= k ->
  binary_normalize 53 1024 (n * 2 ^ k) (- k) false = Number_of_Z n.
Proof.
  intros Hn Hk. destruct n as [|p|p].
  - reflexivity.
  - rewrite Number_of_Z_pos by lia.
    assert (Hpos : 0 < Z.pos p * 2 ^ k) by (apply Z.mul_pos_pos; lia).
    destruct (Z.pos p * 2 ^ k) as [|q|q] eqn:Hq; [lia| |lia].
    cbn [binary_normalize]. apply binary_round_exact; [lia|done|done].
  - rewrite Number_of_Z_neg by lia.
    assert (Hneg : Z.neg p * 2 ^ k < 0) by (apply Z.mul_neg_pos; lia).
    destruct (Z.neg p * 2 ^ k) as [|q|q] eqn:Hq; [lia|lia|].
    cbn [binary_normalize]. apply binary_round_exact; [lia|done|lia].
Qed.

Lemma canon_add (sa sb : bool) (a b : positive) :
  Z.pos a < 2 ^ 53 -> Z.pos b < 2 ^ 53 ->
  Z.abs (cond_Zopp sa (Z.pos a) + cond_Zopp sb (Z.pos b)) < 2 ^ 53 ->
  Number_add (canon sa a) (canon sb b)
  = Number_of_Z (cond_Zopp sa (Z.pos a) + cond_Zopp sb (Z.pos b)).
Proof.
  intros Ha Hb Hab.
  destruct (canon_mantissa a Ha) as [Hma Hla].
  destruct (canon_mantissa b Hb) as [Hmb Hlb].
  unfold Number_add, canon. cbn [SFadd].
  set (ea := Z.log2 (Z.pos a) - 52). set (eb := Z.log2 (Z.pos b) - 52).
  set (ez := Z.min ea eb).
  destruct (shl_align_fst (Z.to_pos (Z.pos a * 2 ^ (52 - Z.log2 (Z.pos a))))
              ea ez ltac:(lia)) as [Hfa _].
  destruct (shl_align_fst (Z.to_pos (Z.pos b * 2 ^ (52 - Z.log2 (Z.pos b))))
              eb ez ltac:(lia)) as [Hfb _].
  rewrite Hfa, Hfb, Hma, Hmb.
  rewrite <- !Z.mul_assoc, <- !Z.pow_add_r by lia.
  replace (52 - Z.log2 (Z.pos a) + (ea - ez)) with (- ez) by lia.
  replace (52 - Z.log2 (Z.pos b) + (eb - ez)) with (- ez) by lia.
  replace (cond_Zopp sa (Z.pos a * 2 ^ (- ez)) + cond_Zopp sb (Z.pos b * 2 ^ (- ez)))
    with ((cond_Zopp sa (Z.pos a) + cond_Zopp sb (Z.pos b)) * 2 ^ (- ez))
    by (destruct sa, sb; cbn [cond_Zopp]; ring).
  replace ez with (- - ez) at 2 by lia.
  apply binary_normalize_exact; [done|lia].
Qed.

(** On integers below [2 ^ 53] whose product or sum stays below
    [2 ^ 53], multiplication and addition of Numbers are exact. *)
Lemma Number_mul_exact (a b : Z) :
  0 < b < 2 ^ 53 -> Z.abs (a * b) < 2 ^ 53 ->
  Number_mul (Number_of_Z a) (Number_of_Z b) = Number_of_Z (a * b).
Proof.
  intros [Hb Hb'] Hab.
  destruct b as [|pb|pb]; [lia| |lia].
  rewrite (Number_of_Z_pos pb) by lia.
  destruct a as [|pa|pa].
  - reflexivity.
  - assert (Z.pos pa < 2 ^ 53) by nia.
    rewrite (Number_of_Z_pos pa), canon_mul by (try done; lia).
    symmetry. apply (Number_of_Z_pos (pa * pb)). lia.
  - assert (Z.pos pa < 2 ^ 53) by nia.
    rewrite (Number_of_Z_neg pa), canon_mul by (try done; lia).
    symmetry. apply (Number_of_Z_neg (pa * pb)). lia.
Qed.

Lemma Number_add_exact (a b : Z) :
  Z.abs a < 2 ^ 53 -> Z.abs b < 2 ^ 53 -> Z.abs (a + b) < 2 ^ 53 ->
  Number_add (Number_of_Z a) (Number_of_Z b) = Number_of_Z (a + b).
Proof.
  intros Ha Hb Hab.
  destruct a as [|pa|pa], b as [|pb|pb];
    rewrite ?Z.add_0_l, ?Z.add_0_r;
    try (rewrite ?Number_of_Z_pos, ?Number_of_Z_neg by lia; reflexivity).
  - rewrite (Number_of_Z_pos pa), (Number_of_Z_pos pb) by lia.
    apply (canon_add false false); [lia|lia|done].
  - rewrite (Number_of_Z_pos pa), (Number_of_Z_neg pb) by lia.
    apply (canon_add false true); [lia|lia|done].
  - rewrite (Number_of_Z_neg pa), (Number_of_Z_pos pb) by lia.
    apply (canon_add true false); [lia|lia|done].
  - rewrite (Number_of_Z_neg pa), (Number_of_Z_neg pb) by lia.
    apply (canon_add true true); [lia|lia|done].
Qed.

(** TimeClip keeps a whole number of milliseconds within the range. *)
Lemma TimeClip_canon (s : bool) (z : positive) :
  Z.pos z <= maxTimeValue ->
  TimeClip (canon s z) = Some (cond_Zopp s (Z.pos z)).
Proof.
  intros Hz. assert (Hz' : Z.pos z < 2 ^ 53) by (unfold maxTimeValue in Hz; lia).
  destruct (canon_mantissa z Hz') as [Hm Hl].
  unfold canon, TimeClip, exceedsTimeRange, truncate, numerator, denominator.
  rewrite Hm.
  replace (Z.max (Z.log2 (Z.pos z) - 52) 0) with 0 by lia.
  replace (Z.max (- (Z.log2 (Z.pos z) - 52)) 0) with (52 - Z.log2 (Z.pos z)) by lia.
  rewrite Z.mul_1_r.
  assert (Hden : 0 < 2 ^ (52 - Z.log2 (Z.pos z))) by (apply Z.pow_pos_nonneg; lia).
  rewrite (proj2 (Z.ltb_ge _ _)) by nia.
  by rewrite Z.div_mul by lia.
Qed.

Lemma TimeClip_Number_of_Z (t : Z) :
  Z.abs t <= maxTimeValue -> TimeClip (Number_of_Z t) = Some t.
Proof.
  intros Ht. assert (Ht' : Z.abs t < 2 ^ 53) by (unfold maxTimeValue in Ht; lia).
  destruct t as [|p|p].
  - reflexivity.
  - rewrite Number_of_Z_pos by lia. apply (TimeClip_canon false). lia.
  - rewrite Number_of_Z_neg by lia. apply (TimeClip_canon true). lia.
Qed.

Lemma exceedsTimeRange_Number_of_Z (t : Z) :
  maxTimeValue < Z.abs t < 2 ^ 53 -> exceedsTimeRange (Number_of_Z t) = true.
Proof.
  intros [Ht Ht'].
  assert (Hgen : forall s z,
            maxTimeValue < Z.pos z < 2 ^ 53 -> exceedsTimeRange (canon s z) = true).
  { intros s z [Hz Hz'].
    destruct (canon_mantissa z Hz') as [Hm Hl].
    unfold canon, exceedsTimeRange, numerator, denominator. rewrite Hm.
    replace (Z.max (Z.log2 (Z.pos z) - 52) 0) with 0 by lia.
    replace (Z.max (- (Z.log2 (Z.pos z) - 52)) 0) with (52 - Z.log2 (Z.pos z)) by lia.
    rewrite Z.mul_1_r.
    assert (Hden : 0 < 2 ^ (52 - Z.log2 (Z.pos z))) by (apply Z.pow_pos_nonneg; lia).
    apply Z.ltb_lt. nia. }
  destruct t as [|p|p].
  - unfold maxTimeValue in Ht. lia.
  - rewrite Number_of_Z_pos by lia. apply Hgen. lia.
  - rewrite Number_of_Z_neg by lia. apply Hgen. lia.
Qed.



(** The sum [now + n * 1000] of [sessionTransform] for a whole number
    [n] of seconds. *)
Lemma expiry_sum_exact (now n : Z) :
  Z.abs now <= maxTimeValue -> Z.abs (n * 1000) < 2 ^ 53 ->
  Z.abs (now + n * 1000) < 2 ^ 53 ->
  Number_add (Number_of_Z now) (Number_mul (Number_of_Z n) (Number_of_Z 1000))
  = Number_of_Z (now + n * 1000).
Proof.
  intros Hnow Hmul Hsum.
  rewrite Number_mul_exact by lia.
  apply Number_add_exact; [unfold maxTimeValue in Hnow; lia|done|done].
Qed.
End Numbers.

(** ** The session transform and the refresh predicate *)

Section Sessions.
Context {ProfileInfo BackstageIdentity : Type}.
Implicit Types (res : Response.t ProfileInfo BackstageIdentity)
               (session : Session.t ProfileInfo BackstageIdentity)
               (now : time_value).

(** The expiry of a transformed session is the TimeClip of the sum the
    transform computes. *)
Lemma sessionTransform_expiresAt_sum now res :
  getTime (Session.expiresAt (Session.providerInfo (sessionTransform now res)))
  = TimeClip
      (Number_add
         (Number_of_Z now)
         (Number_mul (Response.expiresInSeconds (Response.providerInfo res))
                     (Number_of_Z 1000))).
Proof. reflexivity. Qed.

Lemma Qlt_bool_iff (x y : Q) : Qlt_bool x y = true ↔ (x < y)%Q.
Proof. unfold Qlt_bool, Qlt. apply Z.ltb_lt. Qed.

Lemma expiresInSec_lt (d : Z) :
  (inject_Z d / inject_Z 1000 < inject_Z (60 * 5))%Q ↔ (d < 300 * 1000)%Z.
Proof.
  unfold Qlt, Qdiv, Qmult, Qinv, inject_Z. cbn. lia.
Qed.
End Sessions.




(** C7. The refresh predicate answers true for a session exactly when
    its expiry is less than 300 seconds (300000 ms) after the current
    time. *)
Theorem sessionShouldRefresh_threshold {ProfileInfo BackstageIdentity : Type}
    (now : time_value) (session : Session.t ProfileInfo BackstageIdentity) :
  sessionShouldRefresh create now session = true
  ↔ ∃ t, getTime (Session.expiresAt (Session.providerInfo session)) = Some t
         ∧ (t - now < 300 * 1000)%Z.
Proof.
  cbn [sessionShouldRefresh create].
  destruct (getTime _) as [t|].
  - cbv zeta. rewrite Qlt_bool_iff, expiresInSec_lt. split.
    + intros H. by exists t.
    + intros (t' & [= <-] & H). exact H.
  - split; [discriminate|]. intros (t' & [=] & _).
Qed.

(** C8. The session transform hands the profile and the backstage
    identity of the response on unchanged; what it builds anew is the
    provider information: the two tokens copied, the scope string
    normalised into a set, and the expiry. *)
Theorem sessionTransform_frame {ProfileInfo BackstageIdentity : Type}
    (now : time_value) (res : Response.t ProfileInfo BackstageIdentity) :
  Session.profile (sessionTransform now res) = Response.profile res
  ∧ Session.backstageIdentity (sessionTransform now res)
    = Response.backstageIdentity res
  ∧ Session.idToken (Session.providerInfo (sessionTransform now res))
    = Response.idToken (Response.providerInfo res)
  ∧ Session.accessToken (Session.providerInfo (sessionTransform now res))
    = Response.accessToken (Response.providerInfo res)
  ∧ Session.scopes (Session.providerInfo (sessionTransform now res))
    = normalizeScopes (a_string (Response.scope (Response.providerInfo res)))
  ∧ ∀ now' providerInfo',
      let res' := {| Response.providerInfo := providerInfo';
                     Response.profile := Response.profile res;
                     Response.backstageIdentity := Response.backstageIdentity res |} in
      Session.profile (sessionTransform now' res')
      = Session.profile (sessionTransform now res)
      ∧ Session.backstageIdentity (sessionTransform now' res')
        = Session.backstageIdentity (sessionTransform now res).
Proof. repeat split. Qed.

(** ** The accessors when there is no session *)

Section NoSession.
Context {Reason State : Type}.

Lemma await_fulfilled {A B : Type}
    (p : Async (Reason := Reason) (State := State) A)
    (k : A -> Async (Reason := Reason) (State := State) B) st a st' :
  p st = (fulfilled a, st') -> await p k st = k a st'.
Proof. intros H. unfold await. by rewrite H. Qed.

(** A rejection of the session manager is not caught by the accessors. *)
Lemma await_rejected {A B : Type}
    (p : Async (Reason := Reason) (State := State) A)
    (k : A -> Async (Reason := Reason) (State := State) B) st e st' :
  p st = (rejected e, st') -> await p k st = (rejected e, st').
Proof. intros H. unfold await. by rewrite H. Qed.
End NoSession.

(** C3. When the session manager resolves a request to no session, the
    accessor that made the request settles with its sentinel and is not
    rejected: [getAccessToken] and [getIdToken] give the empty string,
    [getProfile] and [getBackstageIdentity] give [undefined]. *)
Theorem no_session_sentinels
    {ProfileInfo BackstageIdentity AuthRequestOptions Reason State : Type}
    (emptyOptions : AuthRequestOptions)
    (sessionManager :
       @SessionManager ProfileInfo BackstageIdentity AuthRequestOptions Reason State)
    (request : GetSessionOptions) (st st' : State) :
  getSession sessionManager request st = (fulfilled None, st') ->
  (∀ scope o,
     request = {| options := spread emptyOptions o;
                  scopes := Some (normalizeScopes scope) |} ->
     getAccessToken emptyOptions sessionManager scope o st
     = (fulfilled (js ""), st'))
  ∧ (∀ o,
       request = {| options := spread emptyOptions o; scopes := None |} ->
       getIdToken emptyOptions sessionManager o st = (fulfilled (js ""), st')
       ∧ getProfile emptyOptions sessionManager o st = (fulfilled None, st')
       ∧ getBackstageIdentity emptyOptions sessionManager o st
         = (fulfilled None, st')).
Proof.
  intros H. split.
  - intros scope o ->. unfold getAccessToken.
    by rewrite (await_fulfilled _ _ _ _ _ H).
  - intros o ->. unfold getIdToken, getProfile, getBackstageIdentity.
    by rewrite !(await_fulfilled _ _ _ _ _ H).
Qed.

Lemma no_session_sentinels_witness :
  getAccessToken tt loggedOutManager (a_string (js "profile")) None 0
  = (fulfilled (js ""), 1)
  ∧ getIdToken tt loggedOutManager None 0 = (fulfilled (js ""), 1)
  ∧ getProfile tt loggedOutManager None 0 = (fulfilled None, 1)
  ∧ getBackstageIdentity tt loggedOutManager None 0 = (fulfilled None, 1).
Proof.
  split.
  - apply (no_session_sentinels tt loggedOutManager
             {| options := tt;
                scopes := Some (normalizeScopes (a_string (js "profile"))) |}
             0 1); reflexivity.
  - apply (no_session_sentinels tt loggedOutManager
             {| options := tt; scopes := None |} 0 1); reflexivity.
Defined.

(** ** Further properties of scope normalisation *)

Section Tokens.
Implicit Types (s t x : jsstring) (l : list jsstring) (scopes : Scopes).

Lemma scopeList_app_ws s w s' :
  isWhiteSpace w = true ->
  scopeList (a_string (s ++ w :: s'))
  = scopeList (a_string s) ++ scopeList (a_string s').
Proof.
  intros Hw. cbn [scopeList].
  by rewrite (split_app_ws s w s' Hw), List.filter_app.
Qed.

Lemma filter_Boolean_nil_inv s :
  List.filter Boolean (split s) = [] -> forallb isWhiteSpace s = true.
Proof.
  induction s as [|c s IH]; simpl; [done|].
  destruct (isWhiteSpace c) eqn:Hc; simpl.
  - exact IH.
  - pose proof (split_not_nil s) as Hne.
    destruct (split s) as [|piece pieces]; [done|]. simpl. discriminate.
Qed.

Lemma concat_filter_Boolean l : concat (List.filter Boolean l) = concat l.
Proof.
  induction l as [|[|c t] l IH]; simpl; [done|exact IH|].
  by rewrite IH.
Qed.

Lemma concat_split s :
  concat (split s) = List.filter (fun c => negb (isWhiteSpace c)) s.
Proof.
  induction s as [|c s IH]; simpl; [done|].
  destruct (isWhiteSpace c) eqn:Hc; simpl; [exact IH|].
  pose proof (split_not_nil s) as Hne.
  destruct (split s) as [|piece pieces]; [done|].
  simpl in *. by rewrite IH.
Qed.

Lemma forallb_no_ws_app s t :
  forallb (fun c => negb (isWhiteSpace c)) s = true ->
  forallb (fun c => negb (isWhiteSpace c)) t = true ->
  forallb (fun c => negb (isWhiteSpace c)) (s ++ t) = true.
Proof. intros Hs Ht. by rewrite forallb_app, Hs, Ht. Qed.

Lemma normalizeScope_no_ws t :
  forallb (fun c => negb (isWhiteSpace c)) t = true ->
  forallb (fun c => negb (isWhiteSpace c)) (normalizeScope t) = true.
Proof.
  intros Ht. unfold normalizeScope.
  assert (Hp : forallb (fun c => negb (isWhiteSpace c)) SCOPE_PREFIX = true)
    by reflexivity.
  assert (Hu : forallb (fun c => negb (isWhiteSpace c)) (js "userinfo.") = true)
    by reflexivity.
  repeat match goal with |- context [if ?b then _ else _] => destruct b end;
    auto using forallb_no_ws_app.
Qed.

(** [k] tokens need at least [2 * k - 1] code units, and one more when
    the string starts with white space. *)
Lemma split_token_count s :
  2 * length (List.filter Boolean (split s)) ≤ length s + 1
  ∧ match split s with
    | [] :: _ => 2 * length (List.filter Boolean (split s)) ≤ length s
    | _ => True
    end.
Proof.
  induction s as [|c s [IH1 IH2]]; simpl; [lia|].
  destruct (isWhiteSpace c) eqn:Hc; simpl.
  - lia.
  - pose proof (split_not_nil s) as Hne.
    destruct (split s) as [|[|d piece] pieces]; [done| |]; simpl in *; lia.
Qed.

Lemma size_list_to_set_le l : size (list_to_set (C := gset jsstring) l) ≤ length l.
Proof.
  induction l as [|t l IH].
  - rewrite list_to_set_nil, size_empty. done.
  - rewrite list_to_set_cons, size_union_alt, size_singleton. cbn [length].
    assert (size (list_to_set (C := gset jsstring) l ∖ {[t]})
            ≤ size (list_to_set (C := gset jsstring) l))
      by (apply subseteq_size, subseteq_difference_l; reflexivity).
    lia.
Qed.
End Tokens.

(** X1. Two arrays with the same elements, in whatever order and with
    whatever repetitions, normalise to the same set. *)
Theorem normalizeScopes_array_same_elements (l1 l2 : list jsstring) :
  list_to_set (C := gset jsstring) l1 = list_to_set l2 ->
  normalizeScopes (an_array l1) = normalizeScopes (an_array l2).
Proof.
  intros Hl. apply set_eq. intros x.
  rewrite !elem_of_normalizeScopes. cbn [scopeList].
  assert (Hmem : ∀ t : jsstring, t ∈ l1 ↔ t ∈ l2).
  { intros t. by rewrite <- !(elem_of_list_to_set (C := gset jsstring)), Hl. }
  split; intros (t & Ht & H); exists t; split; try done; by apply Hmem.
Qed.

Lemma normalizeScopes_array_same_elements_witness :
  normalizeScopes (an_array [js "email"; js "openid"; js "email"])
  = normalizeScopes (an_array [js "openid"; js "email"]).
Proof.
  apply (normalizeScopes_array_same_elements
           [js "email"; js "openid"; js "email"] [js "openid"; js "email"]).
  vm_compute. reflexivity.
Defined.

(** X2. Normalising the concatenation of two arrays gives the union of
    the two normalised sets. *)
Theorem normalizeScopes_array_app (l1 l2 : list jsstring) :
  normalizeScopes (an_array (l1 ++ l2))
  = normalizeScopes (an_array l1) ∪ normalizeScopes (an_array l2).
Proof.
  rewrite !normalizeScopes_unfold. cbn [scopeList].
  by rewrite fmap_app, list_to_set_app_L.
Qed.

(** X3. Two scope strings put together with a white-space code unit in
    between normalise to the union of their normalised sets. *)
Theorem normalizeScopes_string_join (s s' : jsstring) (w : code_unit) :
  isWhiteSpace w = true ->
  normalizeScopes (a_string (s ++ w :: s'))
  = normalizeScopes (a_string s) ∪ normalizeScopes (a_string s').
Proof.
  intros Hw. rewrite !normalizeScopes_unfold, (scopeList_app_ws s w s' Hw).
  by rewrite fmap_app, list_to_set_app_L.
Qed.

Lemma normalizeScopes_string_join_witness :
  normalizeScopes (a_string (js "openid profile" ++ 10%N :: js "calendar"))
  = normalizeScopes (a_string (js "openid profile"))
    ∪ normalizeScopes (a_string (js "calendar")).
Proof.
  apply (normalizeScopes_string_join (js "openid profile") (js "calendar") 10%N).
  reflexivity.
Defined.

(** X4. A non-empty token without white space gives the same singleton
    whether it is passed as a string or as a one-element array. *)
Theorem normalizeScopes_single_token (t : jsstring) :
  t ≠ [] ->
  forallb (fun c => negb (isWhiteSpace c)) t = true ->
  normalizeScopes (a_string t) = {[ normalizeScope t ]}
  ∧ normalizeScopes (an_array [t]) = {[ normalizeScope t ]}.
Proof.
  intros Hne Ht.
  rewrite !normalizeScopes_unfold. cbn [scopeList].
  rewrite (split_no_ws t Ht).
  destruct t as [|c t]; [done|]. cbn [List.filter Boolean fmap list_fmap].
  by rewrite list_to_set_singleton_L.
Qed.

Lemma normalizeScopes_single_token_witness :
  normalizeScopes (a_string (js "calendar")) = {[ normalizeScope (js "calendar") ]}
  ∧ normalizeScopes (an_array [js "calendar"])
    = {[ normalizeScope (js "calendar") ]}.
Proof.
  apply (normalizeScopes_single_token (js "calendar")).
  - discriminate.
  - reflexivity.
Defined.

(** X5. The result is empty exactly when the input has no token: for a
    string, when it consists of white space only (the empty string
    included); for an array, when it is the empty array. *)
Theorem normalizeScopes_empty_iff :
  (∀ scopes, normalizeScopes scopes = ∅ ↔ scopeList scopes = [])
  ∧ (∀ s, normalizeScopes (a_string s) = ∅ ↔ forallb isWhiteSpace s = true)
  ∧ (∀ l, normalizeScopes (an_array l) = ∅ ↔ l = []).
Proof.
  assert (Hgen : ∀ scopes, normalizeScopes scopes = ∅ ↔ scopeList scopes = []).
  { intros scopes. rewrite normalizeScopes_unfold. split.
    - destruct (scopeList scopes) as [|t l]; [done|].
      intros H. assert (Hin : normalizeScope t ∈ (∅ : gset jsstring)).
      { rewrite <- H, elem_of_list_to_set, fmap_cons. by left. }
      by apply not_elem_of_empty in Hin.
    - by intros ->. }
  split; [exact Hgen|]. split.
  - intros s. rewrite Hgen. cbn [scopeList]. split.
    + apply filter_Boolean_nil_inv.
    + apply split_all_ws.
  - intros l. by rewrite Hgen.
Qed.

(** X6. The result never has more elements than the input has tokens;
    for a string of [n] code units that is at most [(n + 1) / 2]. *)
Theorem normalizeScopes_size :
  (∀ scopes, size (normalizeScopes scopes) ≤ length (scopeList scopes))
  ∧ (∀ s, 2 * size (normalizeScopes (a_string s)) ≤ length s + 1).
Proof.
  assert (Hgen : ∀ scopes, size (normalizeScopes scopes) ≤ length (scopeList scopes)).
  { intros scopes. rewrite normalizeScopes_unfold.
    etrans; [apply size_list_to_set_le|]. by rewrite length_fmap. }
  split; [exact Hgen|].
  intros s. specialize (Hgen (a_string s)). cbn [scopeList] in Hgen.
  destruct (split_token_count s) as [H _]. lia.
Qed.

(** X7. The invariant is tight: a set of strings is a result of
    [normalizeScopes] exactly when each of its elements is ["openid"] or
    starts with the namespace prefix, and those strings are the ones the
    callback leaves unchanged. *)
Theorem normalizeScopes_image :
  (∀ x : jsstring,
     normalizeScope x = x ↔ x = js "openid" ∨ startsWith x SCOPE_PREFIX = true)
  ∧ (∀ X : gset jsstring,
       (∃ scopes, normalizeScopes scopes = X)
       ↔ ∀ x, x ∈ X -> x = js "openid" ∨ startsWith x SCOPE_PREFIX = true).
Proof.
  assert (Hfix : ∀ x : jsstring,
            normalizeScope x = x ↔ x = js "openid" ∨ startsWith x SCOPE_PREFIX = true).
  { intros x. split.
    - intros H. rewrite <- H. apply normalizeScope_qualified.
    - intros [->|H]; [reflexivity|by apply normalizeScope_prefixed]. }
  split; [exact Hfix|]. intros X. split.
  - intros [scopes <-] x (t & _ & <-)%elem_of_normalizeScopes.
    apply normalizeScope_qualified.
  - intros HX. exists (an_array (elements X)). apply set_eq. intros x.
    rewrite elem_of_normalizeScopes. cbn [scopeList]. split.
    + intros (t & Ht%elem_of_elements & <-).
      by rewrite (proj2 (Hfix t) (HX t Ht)).
    + intros Hx. exists x. split; [by apply elem_of_elements|].
      apply Hfix, HX, Hx.
Qed.

(** X8. No scope obtained from a string argument contains a white-space
    code unit. *)
Theorem normalizeScopes_string_no_ws (s x : jsstring) :
  x ∈ normalizeScopes (a_string s) ->
  forallb (fun c => negb (isWhiteSpace c)) x = true.
Proof.
  intros (t & Ht & <-)%elem_of_normalizeScopes.
  apply normalizeScope_no_ws. by apply (scopeList_string_elem s).
Qed.

Lemma normalizeScopes_string_no_ws_witness :
  forallb (fun c => negb (isWhiteSpace c))
          (js "https://www.googleapis.com/auth/userinfo.email")
  = true.
Proof.
  apply (normalizeScopes_string_no_ws (js " openid   email ")).
  vm_compute. reflexivity.
Defined.

(** X9. Tokenising a string loses nothing but white space: the tokens,
    one after the other, spell the string with its white-space code
    units removed. *)
Theorem scopeList_string_concat (s : jsstring) :
  concat (scopeList (a_string s))
  = List.filter (fun c => negb (isWhiteSpace c)) s.
Proof. cbn [scopeList]. by rewrite concat_filter_Boolean, concat_split. Qed.

(** ** Further properties of sessions *)

(** X10. A session made at time [now] from a response whose lifetime is
    a whole number [n] of seconds, with an expiry that fits a [Date], is
    due for refresh at time [now'] exactly when fewer than 300000 ms are
    left until [now + n * 1000]; at the moment it is made it is due
    exactly when [n < 300]. *)
Theorem fresh_session_refresh {ProfileInfo BackstageIdentity : Type}
    (now : time_value) (res : Response.t ProfileInfo BackstageIdentity) (n : Z) :
  Response.expiresInSeconds (Response.providerInfo res) = Number_of_Z n ->
  (Z.abs now <= maxTimeValue)%Z ->
  (Z.abs (n * 1000) < 2 ^ 53)%Z ->
  (Z.abs (now + n * 1000) <= maxTimeValue)%Z ->
  (∀ now',
     sessionShouldRefresh create now' (sessionTransform now res) = true
     ↔ (now + n * 1000 - now' < 300 * 1000)%Z)
  ∧ (sessionShouldRefresh create now (sessionTransform now res) = true
     ↔ (n < 300)%Z).
Proof.
  intros Hn Hnow Hmul Hrange.
  assert (Hat : ∀ now',
            sessionShouldRefresh create now' (sessionTransform now res) = true
            ↔ (now + n * 1000 - now' < 300 * 1000)%Z).
  { intros now'. cbn [sessionShouldRefresh create].
    rewrite sessionTransform_expiresAt_sum, Hn.
    rewrite expiry_sum_exact by (try done; unfold maxTimeValue in Hrange; lia).
    rewrite (TimeClip_Number_of_Z _ Hrange).
    cbv zeta. by rewrite Qlt_bool_iff, expiresInSec_lt. }
  split; [exact Hat|]. rewrite Hat. lia.
Qed.

Lemma fresh_session_refresh_witness :
  (sessionShouldRefresh create 1600000300001
     (sessionTransform 1600000000000 ten_minute_response) = true
   ↔ (1600000000000 + 600 * 1000 - 1600000300001 < 300 * 1000)%Z)
  ∧ (sessionShouldRefresh create 1600000000000
       (sessionTransform 1600000000000 ten_minute_response) = true
     ↔ (600 < 300)%Z).
Proof.
  assert (Hnow : (Z.abs 1600000000000 <= maxTimeValue)%Z)
    by (vm_compute; discriminate).
  assert (Hmul : (Z.abs (600 * 1000) < 2 ^ 53)%Z) by reflexivity.
  assert (Hrange : (Z.abs (1600000000000 + 600 * 1000) <= maxTimeValue)%Z)
    by (vm_compute; discriminate).
  split.
  - apply (fresh_session_refresh 1600000000000 ten_minute_response 600
             eq_refl Hnow Hmul Hrange).
  - apply (fresh_session_refresh 1600000000000 ten_minute_response 600
             eq_refl Hnow Hmul Hrange).
Defined.

(** X11. A session made from a response for which the sum
    [now + expiresInSeconds * 1000], as the transform computes it, is not
    a finite Number of magnitude at most 8.64e15 holds an invalid date
    and is never due for refresh; for a whole number [n] of seconds that
    is the case when [now + n * 1000] exceeds that magnitude. *)
Theorem invalid_expiry_never_refreshed {ProfileInfo BackstageIdentity : Type}
    (now : time_value) (res : Response.t ProfileInfo BackstageIdentity) :
  (exceedsTimeRange
     (Number_add
        (Number_of_Z now)
        (Number_mul (Response.expiresInSeconds (Response.providerInfo res))
                    (Number_of_Z 1000)))
   = true ->
   ∀ now', sessionShouldRefresh create now' (sessionTransform now res) = false)
  ∧ (∀ n : Z,
       Response.expiresInSeconds (Response.providerInfo res) = Number_of_Z n ->
       (Z.abs now <= maxTimeValue)%Z ->
       (Z.abs (n * 1000) < 2 ^ 53)%Z ->
       (maxTimeValue < Z.abs (now + n * 1000) < 2 ^ 53)%Z ->
       ∀ now', sessionShouldRefresh create now' (sessionTransform now res) = false).
Proof.
  assert (Hgen :
            exceedsTimeRange
              (Number_add
                 (Number_of_Z now)
                 (Number_mul (Response.expiresInSeconds (Response.providerInfo res))
                             (Number_of_Z 1000)))
            = true ->
            ∀ now', sessionShouldRefresh create now' (sessionTransform now res) = false).
  { intros Hex now'. cbn [sessionShouldRefresh create].
    rewrite sessionTransform_expiresAt_sum. unfold TimeClip. by rewrite Hex. }
  split; [exact Hgen|].
  intros n Hn Hnow Hmul Hsum. apply Hgen. rewrite Hn.
  rewrite expiry_sum_exact by (try done; lia).
  by apply exceedsTimeRange_Number_of_Z.
Qed.

Lemma invalid_expiry_never_refreshed_witness :
  sessionShouldRefresh create 9001600000000000
    (sessionTransform 1600000000000 far_future_response) = false.
Proof.
  apply (invalid_expiry_never_refreshed 1600000000000 far_future_response).
  vm_compute. reflexivity.
Defined.

(** X12. Once a session is due for refresh it stays due as the clock
    advances. *)
Theorem sessionShouldRefresh_monotone {ProfileInfo BackstageIdentity : Type}
    (now now' : time_value) (session : Session.t ProfileInfo BackstageIdentity) :
  (now <= now')%Z ->
  sessionShouldRefresh create now session = true ->
  sessionShouldRefresh create now' session = true.
Proof.
  intros Hle. cbn [sessionShouldRefresh create].
  destruct (getTime _) as [t|]; [|done]. cbv zeta.
  rewrite !Qlt_bool_iff, !expiresInSec_lt. lia.
Qed.

Lemma sessionShouldRefresh_monotone_witness :
  sessionShouldRefresh create 1600000400000
    (sessionTransform 1600000000000 ten_minute_response) = true.
Proof.
  apply (sessionShouldRefresh_monotone 1600000300001 1600000400000).
  - vm_compute. discriminate.
  - vm_compute. reflexivity.
Defined.

(** X13. The scopes the session manager reads off a transformed session
    are the normalised tokens of the response's scope string, whatever the
    clock says: each is ["openid"] or starts with the namespace prefix,
    and none contains white space. *)
Theorem sessionScopes_transformed {ProfileInfo BackstageIdentity : Type}
    (now : time_value) (res : Response.t ProfileInfo BackstageIdentity) (x : jsstring) :
  x ∈ sessionScopes create (sessionTransform now res) ->
  (∃ t, t ∈ scopeList (a_string (Response.scope (Response.providerInfo res)))
        ∧ x = normalizeScope t)
  ∧ (x = js "openid" ∨ ∃ r, x = js "https://www.googleapis.com/auth/" ++ r)
  ∧ forallb (fun c => negb (isWhiteSpace c)) x = true.
Proof.
  cbn [sessionScopes create sessionTransform Session.providerInfo Session.scopes].
  intros (t & Ht & <-)%elem_of_normalizeScopes. split; [by exists t|]. split.
  - destruct (normalizeScope_qualified t) as [H|H]; [by left|right].
    by apply startsWith_inv in H.
  - apply normalizeScope_no_ws.
    by apply (scopeList_string_elem _ _ Ht).
Qed.

Lemma sessionScopes_transformed_witness :
  (∃ t, t ∈ scopeList (a_string (js "openid email"))
        ∧ js "https://www.googleapis.com/auth/userinfo.email" = normalizeScope t)
  ∧ (js "https://www.googleapis.com/auth/userinfo.email" = js "openid"
     ∨ ∃ r, js "https://www.googleapis.com/auth/userinfo.email"
            = js "https://www.googleapis.com/auth/" ++ r)
  ∧ forallb (fun c => negb (isWhiteSpace c))
            (js "https://www.googleapis.com/auth/userinfo.email") = true.
Proof.
  apply (sessionScopes_transformed 1600000000000 ten_minute_response).
  vm_compute. reflexivity.
Defined.

(** ** Further properties of the accessors *)

(** X14. The accessors catch nothing: when the session manager rejects
    a request, the accessor that made it is rejected with the same reason
    and leaves the manager in the state the request left it in. *)
Theorem rejection_propagates
    {ProfileInfo BackstageIdentity AuthRequestOptions Reason State : Type}
    (emptyOptions : AuthRequestOptions)
    (sessionManager :
       @SessionManager ProfileInfo BackstageIdentity AuthRequestOptions Reason State)
    (request : GetSessionOptions) (st st' : State) (e : Reason) :
  getSession sessionManager request st = (rejected e, st') ->
  (∀ scope o,
     request = {| options := spread emptyOptions o;
                  scopes := Some (normalizeScopes scope) |} ->
     getAccessToken emptyOptions sessionManager scope o st = (rejected e, st'))
  ∧ (∀ o,
       request = {| options := spread emptyOptions o; scopes := None |} ->
       getIdToken emptyOptions sessionManager o st = (rejected e, st')
       ∧ getProfile emptyOptions sessionManager o st = (rejected e, st')
       ∧ getBackstageIdentity emptyOptions sessionManager o st
         = (rejected e, st')).
Proof.
  intros H. split.
  - intros scope o ->. unfold getAccessToken.
    by rewrite (await_rejected _ _ _ _ _ H).
  - intros o ->. unfold getIdToken, getProfile, getBackstageIdentity.
    by rewrite !(await_rejected _ _ _ _ _ H).
Qed.

Lemma rejection_propagates_witness :
  getAccessToken tt rejectingManager (a_string (js "profile")) None 0
  = (rejected "popup closed"%string, 1)
  ∧ getIdToken tt rejectingManager None 0 = (rejected "popup closed"%string, 1)
  ∧ getProfile tt rejectingManager None 0 = (rejected "popup closed"%string, 1)
  ∧ getBackstageIdentity tt rejectingManager None 0
    = (rejected "popup closed"%string, 1).
Proof.
  split.
  - apply (rejection_propagates tt rejectingManager
             {| options := tt;
                scopes := Some (normalizeScopes (a_string (js "profile"))) |}
             0 1 "popup closed"%string); reflexivity.
  - apply (rejection_propagates tt rejectingManager
             {| options := tt; scopes := None |} 0 1 "popup closed"%string);
      reflexivity.
Defined.

(** X15. When the session manager resolves a request to a session, each
    accessor hands out the corresponding field of that very session,
    unchanged. *)
Theorem session_projection
    {ProfileInfo BackstageIdentity AuthRequestOptions Reason State : Type}
    (emptyOptions : AuthRequestOptions)
    (sessionManager :
       @SessionManager ProfileInfo BackstageIdentity AuthRequestOptions Reason State)
    (request : GetSessionOptions) (st st' : State)
    (session : Session.t ProfileInfo BackstageIdentity) :
  getSession sessionManager request st = (fulfilled (Some session), st') ->
  (∀ scope o,
     request = {| options := spread emptyOptions o;
                  scopes := Some (normalizeScopes scope) |} ->
     getAccessToken emptyOptions sessionManager scope o st
     = (fulfilled (Session.accessToken (Session.providerInfo session)), st'))
  ∧ (∀ o,
       request = {| options := spread emptyOptions o; scopes := None |} ->
       getIdToken emptyOptions sessionManager o st
       = (fulfilled (Session.idToken (Session.providerInfo session)), st')
       ∧ getProfile emptyOptions sessionManager o st
         = (fulfilled (Some (Session.profile session)), st')
       ∧ getBackstageIdentity emptyOptions sessionManager o st
         = (fulfilled (Some (Session.backstageIdentity session)), st')).
Proof.
  intros H. split.
  - intros scope o ->. unfold getAccessToken.
    by rewrite (await_fulfilled _ _ _ _ _ H).
  - intros o ->. unfold getIdToken, getProfile, getBackstageIdentity.
    by rewrite !(await_fulfilled _ _ _ _ _ H).
Qed.

Lemma session_projection_witness :
  getAccessToken tt signedInManager (a_string (js "profile")) None 0
  = (fulfilled (js "ya29.token"), 1)
  ∧ getIdToken tt signedInManager None 0 = (fulfilled (js "eyJ.id.token"), 1)
  ∧ getProfile tt signedInManager None 0 = (fulfilled (Some tt), 1)
  ∧ getBackstageIdentity tt signedInManager None 0 = (fulfilled (Some tt), 1).
Proof.
  split.
  - apply (session_projection tt signedInManager
             {| options := tt;
                scopes := Some (normalizeScopes (a_string (js "profile"))) |}
             0 1 (sessionTransform 1600000000000 ten_minute_response));
      reflexivity.
  - apply (session_projection tt signedInManager
             {| options := tt; scopes := None |}
             0 1 (sessionTransform 1600000000000 ten_minute_response));
      reflexivity.
Defined.

(** X16. An empty access token does not tell the two cases apart: when
    the request is fulfilled, [getAccessToken] gives the empty string
    exactly when there is no session or the session's access token is
    itself empty. *)
Theorem getAccessToken_empty_iff
    {ProfileInfo BackstageIdentity AuthRequestOptions Reason State : Type}
    (emptyOptions : AuthRequestOptions)
    (sessionManager :
       @SessionManager ProfileInfo BackstageIdentity AuthRequestOptions Reason State)
    (scope : Scopes) (o : option AuthRequestOptions) (st st' : State)
    (session : option (Session.t ProfileInfo BackstageIdentity)) :
  getSession sessionManager
    {| options := spread emptyOptions o; scopes := Some (normalizeScopes scope) |}
    st
  = (fulfilled session, st') ->
  getAccessToken emptyOptions sessionManager scope o st = (fulfilled (js ""), st')
  ↔ session = None
    ∨ ∃ s, session = Some s ∧ Session.accessToken (Session.providerInfo s) = js "".
Proof.
  intros H. unfold getAccessToken. rewrite (await_fulfilled _ _ _ _ _ H).
  unfold resolve. destruct session as [s|]; split.
  - intros [= Htok]. right. by exists s.
  - intros [[=]|(s' & [= <-] & ->)]. done.
  - by left.
  - done.
Qed.

Lemma getAccessToken_empty_iff_witness :
  getAccessToken tt loggedOutManager undefined None 0 = (fulfilled (js ""), 1)
  ↔ (None : option (Session.t unit unit)) = None
    ∨ ∃ s : Session.t unit unit,
        None = Some s ∧ Session.accessToken (Session.providerInfo s) = js "".
Proof.
  apply (getAccessToken_empty_iff tt loggedOutManager undefined None 0 1 None).
  reflexivity.
Defined.

(** X18. [logout] is [removeSession] and nothing more: the same outcome,
    a rejection included, and the same state of the session manager. *)
Theorem logout_removeSession
    {ProfileInfo BackstageIdentity AuthRequestOptions Reason State : Type}
    (sessionManager :
       @SessionManager ProfileInfo BackstageIdentity AuthRequestOptions Reason State)
    (st : State) :
  logout sessionManager st = removeSession sessionManager st.
Proof.
  unfold logout, await, resolve.
  by destruct (removeSession sessionManager st) as [[[]|e] st'].
Qed.
